(** * Tic-tac-toe (src/src/App.jsx): the game logic of the React component

    The component keeps its state in [useState] cells and changes it in event
    handlers.  The embedding follows the source: JavaScript values and arrays
    with what the language does on reads and writes outside the array, the
    pure helpers [getWinner] and [getStatus], and every handler as a function
    from the component state before the event to the state after it. *)

From Stdlib Require Import ZArith NArith Ascii String List Lia Bool.
From stdpp Require Import base option list gmap.

#[local] Open Scope Z_scope.

(** ** JavaScript values held by the board *)

(** The two player marks, the strings ["X"] and ["O"] of the source
    ([nextPlayer] is only ever set to one of them). *)
Inductive mark : Type := X | O.

(** A board cell read with [board[i]]: [null] (set by [emptyBoard]),
    [undefined] (a read outside the array, or of a hole), or a mark. *)
Inductive jsval : Type :=
  | JNull
  | JUndefined
  | JStr (m : mark).

#[global] Instance mark_eq_dec : EqDecision mark.
Proof. solve_decision. Defined.

#[global] Instance jsval_eq_dec : EqDecision jsval.
Proof. solve_decision. Defined.

(** [Boolean(v)]: [null] and [undefined] are falsy, the non-empty strings
    ["X"] and ["O"] are truthy. *)
Definition truthy (v : jsval) : bool :=
  match v with
  | JStr _ => true
  | JNull | JUndefined => false
  end.

(** [v === w] on these values. *)
Definition strict_eq (v w : jsval) : bool := bool_decide (v = w).

(** ** JavaScript arrays

    An array has its elements, where a slot may be a hole ([None]), and, as
    any object, further own properties: a write [a[i] = v] at a key that is
    not an array index (a negative integer, or one above 2^32 - 2) creates
    such a property and leaves the elements alone.  Keys are integral
    numbers throughout ([index] of [board.map], [selectedIndex]). *)
Record jsarray : Type := JsArray {
  elems : list (option jsval);
  props : gmap Z jsval
}.

Definition is_array_index (i : Z) : bool := (0 <=? i) && (i <? 2 ^ 32 - 1).

(** [a[i]] as an expression *)
Definition aget (a : jsarray) (i : Z) : jsval :=
  if is_array_index i then
    match elems a !! Z.to_nat i with
    | Some (Some v) => v
    | _ => JUndefined
    end
  else default JUndefined (props a !! i).

(** [a[i] = v]: in range the slot is overwritten; from the length on the
    array grows, with holes up to the new element; at any other key a
    property is set. *)
Definition aset (a : jsarray) (i : Z) (v : jsval) : jsarray :=
  if is_array_index i then
    let n := Z.to_nat i in
    if (n <? length (elems a))%nat
    then JsArray (<[n := Some v]> (elems a)) (props a)
    else JsArray (elems a ++ replicate (n - length (elems a)) None ++ [Some v])
                 (props a)
  else JsArray (elems a) (<[i := v]> (props a)).

(** [[...a]]: the iterator reads [a[0]] .. [a[length-1]], so the copy is
    dense (a hole becomes [undefined]) and has no further properties. *)
Definition spread (a : jsarray) : jsarray :=
  JsArray (map (fun slot => Some (default JUndefined slot)) (elems a)) ∅.

(** [a.every(Boolean)]: the callback is not called on holes. *)
Definition every_Boolean (a : jsarray) : bool :=
  forallb (fun slot => match slot with
                       | Some v => truthy v
                       | None => true
                       end) (elems a).

(** ** Strings

    A JavaScript string is a sequence of UTF-16 code units. *)
Definition jsstring : Type := list N.

(** The string literals of the source are ASCII. *)
Definition lit (s : string) : jsstring := map N_of_ascii (list_ascii_of_string s).

(** A mark as the string it is. *)
Definition mark_str (m : mark) : jsstring :=
  match m with
  | X => lit "X"
  | O => lit "O"
  end.

(** WhiteSpace and LineTerminator of ECMAScript, which [trim] strips:
    TAB, LF, VT, FF, CR, SP, NBSP, U+1680, U+2000..U+200A, U+2028, U+2029,
    U+202F, U+205F, U+3000 and U+FEFF. *)
Definition is_ws (c : N) : bool :=
  (((9 <=? c) && (c <=? 13)) || (c =? 32) || (c =? 160) || (c =? 5760)
   || ((8192 <=? c) && (c <=? 8202)) || (c =? 8232) || (c =? 8233)
   || (c =? 8239) || (c =? 8287) || (c =? 12288) || (c =? 65279))%N.

Fixpoint trimStart (s : jsstring) : jsstring :=
  match s with
  | c :: rest => if is_ws c then trimStart rest else s
  | [] => []
  end.

Definition trimEnd (s : jsstring) : jsstring := rev (trimStart (rev s)).

(** [s.trim()] *)
Definition trim (s : jsstring) : jsstring := trimEnd (trimStart s).

(** [s || d] on strings: only the empty string is falsy. *)
Definition str_or (s d : jsstring) : jsstring :=
  match s with
  | [] => d
  | _ :: _ => s
  end.

(** ** The helpers of the module *)

Definition WINNING_LINES : list (Z * Z * Z) :=
  [ (0, 1, 2);
    (3, 4, 5);
    (6, 7, 8);
    (0, 3, 6);
    (1, 4, 7);
    (2, 5, 8);
    (0, 4, 8);
    (2, 4, 6) ].

(** [Array(9).fill(null)] *)
Definition emptyBoard : jsarray := JsArray (replicate 9 (Some JNull)) ∅.

(** The test of the loop body:
    [board[a] && board[a] === board[b] && board[a] === board[c]]. *)
Definition line_hit (board : jsarray) (line : Z * Z * Z) : bool :=
  let '(a, b, c) := line in
  truthy (aget board a)
  && strict_eq (aget board a) (aget board b)
  && strict_eq (aget board a) (aget board c).

(** The [for ... of] loop of [getWinner] over the lines still to visit. *)
Fixpoint scan_lines (lines : list (Z * Z * Z)) (board : jsarray) : jsval :=
  match lines with
  | [] => JNull
  | (a, b, c) :: rest =>
      if line_hit board (a, b, c) then aget board a
      else scan_lines rest board
  end.

Definition getWinner (board : jsarray) : jsval := scan_lines WINNING_LINES board.

(** The value of a mark cell in a template literal. *)
Definition val_str (v : jsval) : jsstring :=
  match v with
  | JStr m => mark_str m
  | JNull => lit "null"
  | JUndefined => lit "undefined"
  end.

Definition getStatus (board : jsarray) (nextPlayer : jsstring) : jsstring :=
  let winner := getWinner board in
  if truthy winner then lit "Winner: " ++ val_str winner
  else if every_Boolean board then lit "Draw!"
  else lit "Next player: " ++ nextPlayer.

(** ** The component state

    One field per [useState] cell of [App]. *)

(** The objects [{ X: ..., O: ... }] of [players] and [nameInputs]. *)
Record names : Type := Names {
  nameX : jsstring;
  nameO : jsstring
}.

Definition defaultNames : names := Names (lit "Player 1") (lit "Player 2").

(** [obj[m]] for a mark [m] *)
Definition name_of (obj : names) (m : mark) : jsstring :=
  match m with
  | X => nameX obj
  | O => nameO obj
  end.

Record state : Type := State {
  board : jsarray;
  nextPlayer : mark;
  isStarted : bool;
  players : names;
  nameInputs : names;
  isNameEditorOpen : bool;
  selectedIndex : Z
}.

(** The initial values given to [useState]. *)
Definition initial : state :=
  State emptyBoard X false defaultNames defaultNames false 0.

(** The memoised values of a render. *)
Definition winner (s : state) : jsval := getWinner (board s).

Definition isDraw (s : state) : bool :=
  every_Boolean (board s) && negb (truthy (winner s)).

Definition winningLine (s : state) : option (Z * Z * Z) :=
  find (line_hit (board s)) WINNING_LINES.

Definition status (s : state) : jsstring :=
  let displayNext :=
    str_or (name_of (players s) (nextPlayer s)) (mark_str (nextPlayer s)) in
  getStatus (board s) displayNext.

(** [current === "X" ? "O" : "X"] *)
Definition toggle (current : mark) : mark :=
  match current with
  | X => O
  | O => X
  end.

(** ** The handlers *)

Definition handleSquareClick (index : Z) (s : state) : state :=
  if truthy (aget (board s) index) || truthy (winner s) then s
  else
    let updatedBoard := aset (spread (board s)) index (JStr (nextPlayer s)) in
    State updatedBoard (toggle (nextPlayer s)) (isStarted s) (players s)
          (nameInputs s) (isNameEditorOpen s) (selectedIndex s).

Definition handleReset (s : state) : state :=
  State emptyBoard X (isStarted s) (players s) (nameInputs s)
        (isNameEditorOpen s) 0.

Definition handleStartDefault (s : state) : state :=
  State (board s) (nextPlayer s) true defaultNames defaultNames false
        (selectedIndex s).

Definition handleStartWithNames (s : state) : state :=
  let trimmed :=
    Names (str_or (trim (nameX (nameInputs s))) (nameX defaultNames))
          (str_or (trim (nameO (nameInputs s))) (nameO defaultNames)) in
  State (board s) (nextPlayer s) true trimmed (nameInputs s) false
        (selectedIndex s).

Definition handleEndGame (s : state) : state :=
  State emptyBoard X false (players s) (nameInputs s) false 0.

(** [(current + delta + 9) % 9], with the truncating [%] of JavaScript. *)
Definition moveSelection (delta : Z) (s : state) : state :=
  State (board s) (nextPlayer s) (isStarted s) (players s) (nameInputs s)
        (isNameEditorOpen s) (Z.rem (selectedIndex s + delta + 9) 9).

Definition setSelectedIndex (i : Z) (s : state) : state :=
  State (board s) (nextPlayer s) (isStarted s) (players s) (nameInputs s)
        (isNameEditorOpen s) i.

(** The values of [event.key] that the [switch] tells apart. *)
Inductive key : Type :=
  | ArrowUp | ArrowDown | ArrowLeft | ArrowRight
  | Home | EndKey | Enter | Space | OtherKey.

(** [inField] says that the focused element is an [input] or a
    [textarea]. *)
Definition handleBoardKeyDown (k : key) (inField : bool) (s : state) : state :=
  if negb (isStarted s) then s
  else if inField then s
  else
    match k with
    | ArrowUp => moveSelection (-3) s
    | ArrowDown => moveSelection 3 s
    | ArrowLeft => moveSelection (-1) s
    | ArrowRight => moveSelection 1 s
    | Home => setSelectedIndex 0 s
    | EndKey => setSelectedIndex 8 s
    | Enter | Space => handleSquareClick (selectedIndex s) s
    | OtherKey => s
    end.

(** The [onChange] handlers of the two name fields and the toggle of the
    name editor. *)
Definition changeNameX (value : jsstring) (s : state) : state :=
  State (board s) (nextPlayer s) (isStarted s) (players s)
        (Names value (nameO (nameInputs s))) (isNameEditorOpen s)
        (selectedIndex s).

Definition changeNameO (value : jsstring) (s : state) : state :=
  State (board s) (nextPlayer s) (isStarted s) (players s)
        (Names (nameX (nameInputs s)) value) (isNameEditorOpen s)
        (selectedIndex s).

Definition toggleNameEditor (s : state) : state :=
  State (board s) (nextPlayer s) (isStarted s) (players s) (nameInputs s)
        (negb (isNameEditorOpen s)) (selectedIndex s).

(** ** Events and reachable states *)

Inductive event : Type :=
  | ClickSquare (index : Z)
  | ClickReset
  | ClickStartDefault
  | SubmitNames
  | ClickEndGame
  | KeyDown (k : key) (inField : bool)
  | ChangeNameX (value : jsstring)
  | ChangeNameO (value : jsstring)
  | ClickChangeNames.

Definition step (s : state) (e : event) : state :=
  match e with
  | ClickSquare index => handleSquareClick index s
  | ClickReset => handleReset s
  | ClickStartDefault => handleStartDefault s
  | SubmitNames => handleStartWithNames s
  | ClickEndGame => handleEndGame s
  | KeyDown k inField => handleBoardKeyDown k inField s
  | ChangeNameX value => changeNameX value s
  | ChangeNameO value => changeNameO value s
  | ClickChangeNames => toggleNameEditor s
  end.

Definition run (s : state) (es : list event) : state := fold_left step es s.

(** [board.map] renders one [Square] per element of the array (holes are
    skipped), and only a rendered square can be clicked. *)
Definition rendered (s : state) (index : Z) : Prop :=
  0 <= index /\ exists v, elems (board s) !! Z.to_nat index = Some (Some v).

Definition deliverable (s : state) (e : event) : Prop :=
  match e with
  | ClickSquare index => rendered s index
  | _ => True
  end.

Inductive reachable : state -> Prop :=
  | reachable_initial : reachable initial
  | reachable_step s e :
      reachable s -> deliverable s e -> reachable (step s e).

(** ** Boards as sequences of cells

    The board of the specification: nine cells, each empty or holding a
    mark. *)
Definition cell_val (c : option mark) : jsval :=
  match c with
  | Some m => JStr m
  | None => JNull
  end.

Definition board_of (cells : list (option mark)) : jsarray :=
  JsArray (map (fun c => Some (cell_val c)) cells) ∅.

(** A winning line that one mark occupies entirely. *)
Definition complete (b : jsarray) (line : Z * Z * Z) (m : mark) : Prop :=
  let '(i, j, k) := line in
  aget b i = JStr m /\ aget b j = JStr m /\ aget b k = JStr m.

(** The number of marks on the board. *)
Fixpoint count_marks (cells : list (option mark)) : nat :=
  match cells with
  | [] => 0
  | Some _ :: rest => S (count_marks rest)
  | None :: rest => count_marks rest
  end.

(** Whose turn it is after [n] moves when X moves first. *)
Definition turn_after (n : nat) : mark := if Nat.even n then X else O.

(** What holds in every state the events lead to: the board is a 9-cell
    board, the turn is the one that the number of marks on it gives, and the
    selected square is one of the nine. *)
Definition state_ok (s : state) : Prop :=
  exists cells,
    board s = board_of cells /\ length cells = 9%nat /\
    nextPlayer s = turn_after (count_marks cells) /\
    0 <= selectedIndex s < 9.

(** [t] is [input] without its leading and trailing white space. *)
Definition is_trim_of (input t : jsstring) : Prop :=
  exists pre post,
    input = pre ++ t ++ post /\
    forallb is_ws pre = true /\ forallb is_ws post = true /\
    (forall c, head t = Some c -> is_ws c = false) /\
    (forall c, last t = Some c -> is_ws c = false).

(** The five moves of the scenario of the specification: X at 4, O at 0,
    X at 8, O at 1, X at 2. *)
Definition scenario : list event :=
  [ClickSquare 4; ClickSquare 0; ClickSquare 8; ClickSquare 1; ClickSquare 2].

(** The rows and columns of the 3x3 grid in row-major numbering. *)
Definition row (r : Z) : Z * Z * Z := (3 * r, 3 * r + 1, 3 * r + 2).
Definition col (c : Z) : Z * Z * Z := (c, c + 3, c + 6).

(** ** What a render passes to the squares and the restart button *)

(** The [disabled] prop of the square at [index],
    [Boolean(value) || Boolean(winner)], where [value] is the element that
    [board.map] hands to the callback. *)
Definition squareDisabled (s : state) (index : Z) : bool :=
  truthy (aget (board s) index) || truthy (winner s).

(** The [highlight] prop, [winningLine?.includes(index)]: [undefined], so
    falsy, when there is no winning line. *)
Definition squareHighlight (s : state) (index : Z) : bool :=
  match winningLine s with
  | Some (a, b, c) => (index =? a) || (index =? b) || (index =? c)
  | None => false
  end.

(** The label of the restart button:
    [winner || isDraw ? "Play again" : "Restart"]. *)
Definition resetLabel (s : state) : jsstring :=
  if truthy (winner s) || isDraw s then lit "Play again" else lit "Restart".

(** ** Notions used to state what the handlers keep *)

(** The number of cells that hold the mark [m]. *)
Fixpoint count_of (m : mark) (cells : list (option mark)) : nat :=
  match cells with
  | [] => 0
  | c :: rest =>
      (if bool_decide (c = Some m) then 1 else 0)%nat + count_of m rest
  end.

(** The events that start a game over: "Restart"/"Play again" and "Exit to
    home". *)
Definition clears_board (e : event) : bool :=
  match e with
  | ClickReset | ClickEndGame => true
  | _ => false
  end.

(** Two states with the same game: board, mark to move, started flag and
    selected square. *)
Definition same_game (s t : state) : Prop :=
  board s = board t /\ nextPlayer s = nextPlayer t /\
  isStarted s = isStarted t /\ selectedIndex s = selectedIndex t.

(** A player's name as the start handlers leave it: not empty, and without
    white space at its ends. *)
Definition name_ok (name : jsstring) : Prop :=
  name <> [] /\ trim name = name.

(** Every event of the list can be delivered in the state it meets. *)
Fixpoint deliverable_all (s : state) (es : list event) : Prop :=
  match es with
  | [] => True
  | e :: rest => deliverable s e /\ deliverable_all (step s e) rest
  end.

(** A game of nine moves that fills the board without a complete line. *)
Definition drawn_game : list event :=
  [ClickStartDefault;
   ClickSquare 0; ClickSquare 1; ClickSquare 2; ClickSquare 4; ClickSquare 3;
   ClickSquare 5; ClickSquare 7; ClickSquare 6; ClickSquare 8].

(** How many marks X has more than O when [m] is to move. *)
Definition turn_surplus (m : mark) : nat :=
  match m with
  | X => 0
  | O => 1
  end.

(** What play keeps besides [state_ok]: X has as many marks as O, or one
    more when O is to move, and a complete line can only hold the mark of
    the player who moved last. *)
Definition game_inv (s : state) : Prop :=
  exists cells,
    board s = board_of cells /\ length cells = 9%nat /\
    0 <= selectedIndex s < 9 /\
    count_of X cells = (count_of O cells + turn_surplus (nextPlayer s))%nat /\
    (forall line m,
        In line WINNING_LINES -> complete (board s) line m ->
        m = toggle (nextPlayer s)).

(** A game that X wins on row 0 with the fifth move. *)
Definition won_game : list event :=
  [ClickStartDefault;
   ClickSquare 0; ClickSquare 3; ClickSquare 1; ClickSquare 4; ClickSquare 2].

(** * Properties *)

(** ** Values and arrays *)

Lemma truthy_JStr v : truthy v = true <-> exists m, v = JStr m.
Proof.
  destruct v as [| |m]; simpl; split; try discriminate; eauto.
  - intros [m Hm]; discriminate.
  - intros [m Hm]; discriminate.
Qed.

Lemma strict_eq_true v w : strict_eq v w = true <-> v = w.
Proof. unfold strict_eq. apply bool_decide_eq_true. Qed.

Lemma line_hit_complete b line :
  line_hit b line = true <-> exists m, complete b line m.
Proof.
  destruct line as [[i j] k]. unfold line_hit, complete.
  rewrite !andb_true_iff, !strict_eq_true, truthy_JStr. split.
  - intros [[[m Hm] Hj] Hk]. exists m. rewrite <- Hj, <- Hk. auto.
  - intros [m (Hi & Hj & Hk)]. rewrite Hi, Hj, Hk. eauto.
Qed.

Lemma line_hit_false b line :
  line_hit b line = false <-> forall m, ~ complete b line m.
Proof.
  rewrite <- not_true_iff_false, line_hit_complete. split.
  - intros Hno m Hc. apply Hno. exists m. exact Hc.
  - intros Hno [m Hc]. exact (Hno m Hc).
Qed.

Lemma complete_first b i j k m : complete b (i, j, k) m -> aget b i = JStr m.
Proof. intros (H & _). exact H. Qed.

Lemma complete_inj b line m m' : complete b line m -> complete b line m' -> m = m'.
Proof.
  destruct line as [[i j] k]. intros (H & _) (H' & _). congruence.
Qed.

(** ** The scan of the winning lines *)

Section Scan.
Variable b : jsarray.

(** A scan that meets no complete line ends with [null]. *)
Lemma scan_lines_none lines :
  (forall line, In line lines -> line_hit b line = false) ->
  scan_lines lines b = JNull.
Proof.
  induction lines as [|[[i j] k] rest IH]; intros Hno; cbn [scan_lines];
    [reflexivity|].
  rewrite (Hno (i, j, k)) by (left; reflexivity).
  apply IH. intros line Hin. apply Hno. right. exact Hin.
Qed.

(** The scan stops at the first complete line and returns its mark. *)
Lemma scan_lines_first pre line post m :
  (forall l, In l pre -> line_hit b l = false) ->
  complete b line m ->
  scan_lines (pre ++ line :: post) b = JStr m.
Proof.
  intros Hpre Hc.
  induction pre as [|[[i j] k] pre IH]; cbn [scan_lines app].
  - destruct line as [[i j] k].
    assert (Hhit : line_hit b (i, j, k) = true)
      by (apply line_hit_complete; eauto).
    rewrite Hhit. eapply complete_first, Hc.
  - rewrite (Hpre (i, j, k)) by (left; reflexivity).
    apply IH. intros l Hin. apply Hpre. right. exact Hin.
Qed.

(** Every list of lines splits at its first complete line, if any. *)
Lemma first_hit_split lines :
  (forall line, In line lines -> line_hit b line = false) \/
  (exists pre line post,
      lines = pre ++ line :: post /\
      (forall l, In l pre -> line_hit b l = false) /\
      line_hit b line = true).
Proof.
  induction lines as [|l rest IH]; [left; intros ? []|].
  destruct (line_hit b l) eqn:Hl.
  - right. exists [], l, rest. repeat split; [intros ? []|exact Hl].
  - destruct IH as [Hno|(pre & line & post & -> & Hpre & Hhit)].
    + left. intros line [<-|Hin]; auto.
    + right. exists (l :: pre), line, post. repeat split; [|exact Hhit].
      intros l' [<-|Hin]; auto.
Qed.

(** What the scan returns is [null] or the mark of a complete line. *)
Lemma scan_lines_result lines :
  (scan_lines lines b = JNull /\
   forall line, In line lines -> line_hit b line = false) \/
  (exists line m, In line lines /\ complete b line m /\
                  scan_lines lines b = JStr m).
Proof.
  destruct (first_hit_split lines)
    as [Hno|(pre & line & post & -> & Hpre & Hhit)].
  - left. split; [apply scan_lines_none|]; assumption.
  - right. apply line_hit_complete in Hhit as [m Hm].
    exists line, m. split; [apply in_elt|].
    split; [exact Hm|]. apply scan_lines_first; assumption.
Qed.
End Scan.

Lemma getWinner_cases b :
  (getWinner b = JNull /\
   forall line m, In line WINNING_LINES -> ~ complete b line m) \/
  (exists line m, In line WINNING_LINES /\ complete b line m /\
                  getWinner b = JStr m).
Proof.
  unfold getWinner. destruct (scan_lines_result b WINNING_LINES) as [[H Hno]|H].
  - left. split; [exact H|]. intros line m Hin. apply line_hit_false; auto.
  - right. exact H.
Qed.

(** ** Boards of cells *)

Lemma aget_board_of cells i c :
  0 <= i < 2 ^ 32 - 1 -> cells !! Z.to_nat i = Some c ->
  aget (board_of cells) i = cell_val c.
Proof.
  intros Hi Hc. unfold aget, board_of; simpl.
  rewrite list_lookup_fmap, Hc; simpl.
  unfold is_array_index.
  destruct (Z.leb_spec 0 i); [|lia].
  destruct (Z.ltb_spec i (2 ^ 32 - 1)); [reflexivity|lia].
Qed.

Lemma every_Boolean_board_of cells :
  every_Boolean (board_of cells) = true <-> Forall is_Some cells.
Proof.
  unfold every_Boolean, board_of; simpl.
  induction cells as [|c cells IH]; simpl.
  - split; [constructor|reflexivity].
  - rewrite andb_true_iff, IH, Forall_cons. destruct c as [m|]; simpl.
    + split; intros [_ H]; split; eauto.
    + split; intros [H _]; [discriminate|]. destruct H as [x Hx]. discriminate.
Qed.

Lemma spread_board_of cells : spread (board_of cells) = board_of cells.
Proof.
  unfold spread, board_of; simpl. f_equal.
  rewrite map_map. reflexivity.
Qed.

Lemma getWinner_board_of cells :
  getWinner (board_of cells) = JNull \/
  exists m, getWinner (board_of cells) = JStr m.
Proof.
  destruct (getWinner_cases (board_of cells)) as [[H _]|(l & m & _ & _ & H)];
    eauto.
Qed.

(** ** The winner *)

(** C5: [WINNING_LINES] enumerates row 0, row 1, row 2, column 0, column 1,
    column 2, the diagonal 0-4-8 and the diagonal 2-4-6 in this order, and
    on every board [getWinner] returns the mark that occupies the first
    complete line of this enumeration: the line before which no line is
    complete decides, however many complete lines follow it. *)
Theorem getWinner_first_complete_line :
  WINNING_LINES =
    [row 0; row 1; row 2; col 0; col 1; col 2; (0, 4, 8); (2, 4, 6)] /\
  forall (b : jsarray) (pre post : list (Z * Z * Z)) (line : Z * Z * Z)
         (m : mark),
    WINNING_LINES = pre ++ line :: post ->
    (forall l m', In l pre -> ~ complete b l m') ->
    complete b line m ->
    getWinner b = JStr m.
Proof.
  split; [reflexivity|].
  intros b pre post line m Hsplit Hpre Hc.
  unfold getWinner. rewrite Hsplit.
  apply scan_lines_first; [|exact Hc].
  intros l Hin. apply line_hit_false. intros m'. apply Hpre. exact Hin.
Qed.

(** Column 2 and the diagonal 2-4-6 are both complete with X (the fifth move
    of X at cell 2 completes both); column 2 comes first. *)
Lemma getWinner_first_complete_line_witness :
  getWinner (board_of [Some O; Some O; Some X;
                       Some O; Some X; Some X;
                       Some X; Some O; Some X]) = JStr X.
Proof.
  apply (proj2 getWinner_first_complete_line _
           [(0, 1, 2); (3, 4, 5); (6, 7, 8); (0, 3, 6); (1, 4, 7)]
           [(0, 4, 8); (2, 4, 6)] (2, 5, 8) X).
  - reflexivity.
  - intros l m' Hin Hc.
    repeat (destruct Hin as [<-|Hin];
            [destruct m'; vm_compute in Hc; destruct Hc as (? & ? & ?);
             discriminate|]).
    destruct Hin.
  - vm_compute. repeat split.
Defined.

(** C2, as it is stated, fails where two lines are complete with different
    marks: row 1 is complete with O, and [getWinner] returns the X of
    row 0. *)
Lemma getWinner_complete_line_counterexample :
  let b := board_of [Some X; Some X; Some X;
                     Some O; Some O; Some O;
                     None; None; None] in
  In (3, 4, 5) WINNING_LINES /\ complete b (3, 4, 5) O /\
  getWinner b = JStr X /\ getWinner b <> JStr O.
Proof.
  vm_compute. repeat split; auto 10; discriminate.
Qed.

(** C2 (amended): for every 9-cell board, if some winning line has its
    three cells equal and non-empty, and the complete lines all hold this
    same mark, [getWinner] returns it; if no winning line is complete,
    [getWinner] returns [null]. *)
Theorem getWinner_complete_line (cells : list (option mark)) :
  length cells = 9%nat ->
  let b := board_of cells in
  (forall line m,
      In line WINNING_LINES -> complete b line m ->
      (forall line' m',
          In line' WINNING_LINES -> complete b line' m' -> m' = m) ->
      getWinner b = JStr m) /\
  ((forall line m, In line WINNING_LINES -> ~ complete b line m) ->
   getWinner b = JNull).
Proof.
  intros _ b. split.
  - intros line m Hin Hc Hagree.
    destruct (getWinner_cases b) as [[_ Hno]|(l' & m' & Hin' & Hc' & Hw)].
    + exfalso. eapply Hno; eassumption.
    + rewrite Hw. f_equal. eapply Hagree; eassumption.
  - intros Hno.
    destruct (getWinner_cases b) as [[Hw _]|(l' & m' & Hin' & Hc' & _)].
    + exact Hw.
    + exfalso. eapply Hno; eassumption.
Qed.

Lemma getWinner_complete_line_witness :
  getWinner (board_of [Some X; Some O; Some O;
                       None; Some X; None;
                       None; None; Some X]) = JStr X
  /\ getWinner (board_of [Some X; Some O; None;
                          None; None; None;
                          None; None; None]) = JNull.
Proof.
  split.
  - apply (proj1 (getWinner_complete_line
                    [Some X; Some O; Some O; None; Some X; None;
                     None; None; Some X] eq_refl) (0, 4, 8) X).
    + simpl. auto 10.
    + vm_compute. repeat split.
    + intros line' m' Hin Hc.
      repeat (destruct Hin as [<-|Hin];
              [destruct m'; vm_compute in Hc; destruct Hc as (? & ? & ?);
               first [reflexivity|discriminate]|]).
      destruct Hin.
  - apply (proj2 (getWinner_complete_line
                    [Some X; Some O; None; None; None; None;
                     None; None; None] eq_refl)).
    intros line m Hin Hc.
    repeat (destruct Hin as [<-|Hin];
            [destruct m; vm_compute in Hc; destruct Hc as (? & ? & ?);
             discriminate|]).
    destruct Hin.
Defined.

(** ** The status line *)

Lemma status_strings_distinct (name : jsstring) (m m' : mark) :
  lit "Winner: " ++ mark_str m <> lit "Draw!" /\
  lit "Winner: " ++ mark_str m <> lit "Next player: " ++ name /\
  lit "Draw!" <> lit "Next player: " ++ name /\
  (lit "Winner: " ++ mark_str m = lit "Winner: " ++ mark_str m' -> m = m').
Proof.
  repeat split; destruct m; try destruct m'; vm_compute; congruence.
Qed.

(** C3: for every 9-cell board, [getStatus] returns the Won status of mark
    [m] exactly when [getWinner] returns [m] (also on a full board: Won goes
    before Draw), the Draw status exactly when all nine cells are occupied
    and there is no winner, and the InProgress status (the next player's
    name) exactly in the remaining case. *)
Theorem getStatus_cases (cells : list (option mark)) (name : jsstring) :
  length cells = 9%nat ->
  let b := board_of cells in
  (forall m, getWinner b = JStr m ->
             getStatus b name = lit "Winner: " ++ mark_str m) /\
  (getStatus b name = lit "Draw!" <->
   Forall is_Some cells /\ getWinner b = JNull) /\
  (getStatus b name = lit "Next player: " ++ name <->
   ~ (Forall is_Some cells /\ getWinner b = JNull) /\
   forall m, getWinner b <> JStr m).
Proof.
  intros _ b.
  pose proof (every_Boolean_board_of cells) as Hfull. fold b in Hfull.
  unfold getStatus.
  destruct (getWinner_board_of cells) as [Hw|[m Hw]]; fold b in Hw;
    rewrite Hw; simpl.
  - destruct (every_Boolean b) eqn:Hevery.
    + split; [intros m Hm; discriminate|]. split.
      * split; [intros _; split; [apply Hfull|]; reflexivity|reflexivity].
      * split.
        -- intros H. exfalso.
           eapply (proj1 (proj2 (proj2 (status_strings_distinct name X X)))).
           exact H.
        -- intros [Hn _]. exfalso. apply Hn. split; [apply Hfull|]; reflexivity.
    + split; [intros m Hm; discriminate|]. split.
      * split.
        -- intros H. exfalso.
           eapply (proj1 (proj2 (proj2 (status_strings_distinct name X X)))).
           symmetry. exact H.
        -- intros [Hall _]. apply Hfull in Hall. discriminate.
      * split; [|reflexivity]. intros _. split; [|intros m; discriminate].
        intros [Hall _]. apply Hfull in Hall. discriminate.
  - split; [intros m' Hm'; congruence|]. split.
    + split.
      * intros H. exfalso.
        eapply (proj1 (status_strings_distinct name m m)). exact H.
      * intros [_ H]. discriminate.
    + split.
      * intros H. exfalso.
        eapply (proj1 (proj2 (status_strings_distinct name m m))). exact H.
      * intros [_ H]. exfalso. apply (H m). reflexivity.
Qed.

(** A won full board, a drawn board and a board in progress. *)
Lemma getStatus_cases_witness :
  getStatus (board_of [Some X; Some O; Some X;
                       Some O; Some X; Some O;
                       Some X; Some X; Some O]) (lit "Ann")
    = lit "Winner: X"
  /\ (getStatus (board_of [Some X; Some O; Some X;
                           Some X; Some O; Some O;
                           Some O; Some X; Some X]) (lit "Ann")
      = lit "Draw!")
  /\ (getStatus (board_of [Some X; Some O; None;
                           None; None; None;
                           None; None; None]) (lit "Ann")
      = lit "Next player: Ann").
Proof.
  split; [|split].
  - apply (proj1 (getStatus_cases
                    [Some X; Some O; Some X; Some O; Some X; Some O;
                     Some X; Some X; Some O] (lit "Ann") eq_refl) X).
    reflexivity.
  - apply (proj1 (proj2 (getStatus_cases
                    [Some X; Some O; Some X; Some X; Some O; Some O;
                     Some O; Some X; Some X] (lit "Ann") eq_refl))).
    split; [repeat constructor; eexists; reflexivity|reflexivity].
  - apply (proj2 (proj2 (getStatus_cases
                    [Some X; Some O; None; None; None; None;
                     None; None; None] (lit "Ann") eq_refl))).
    split.
    + intros [Hall _]. inversion Hall as [|? ? _ Hall1]; subst.
      inversion Hall1 as [|? ? _ Hall2]; subst.
      inversion Hall2 as [|? ? Hnone _]; subst.
      destruct Hnone as [x Hx]. discriminate.
    + intros m. discriminate.
Defined.

(** ** Reads and writes of arrays *)

Lemma is_array_index_true i : is_array_index i = true <-> 0 <= i < 2 ^ 32 - 1.
Proof. unfold is_array_index. rewrite andb_true_iff, Z.leb_le, Z.ltb_lt. tauto. Qed.

Lemma aget_aset_eq a i v : aget (aset a i v) i = v.
Proof.
  unfold aget, aset. destruct (is_array_index i) eqn:Hi.
  - destruct (Nat.ltb_spec (Z.to_nat i) (length (elems a))) as [Hlt|Hge]; simpl.
    + rewrite list_lookup_insert_eq by exact Hlt. reflexivity.
    + rewrite lookup_app_r by exact Hge.
      rewrite lookup_app_r by (rewrite length_replicate; lia).
      rewrite length_replicate, Nat.sub_diag. reflexivity.
  - simpl. rewrite lookup_insert_eq. reflexivity.
Qed.

Lemma aget_aset_ne a i j v : j <> i -> aget (aset a i v) j = aget a j.
Proof.
  intros Hne. unfold aget, aset.
  destruct (is_array_index i) eqn:Hi, (is_array_index j) eqn:Hj.
  - apply is_array_index_true in Hi, Hj.
    assert (Hn : Z.to_nat i <> Z.to_nat j) by lia.
    destruct (Nat.ltb_spec (Z.to_nat i) (length (elems a))) as [Hlt|Hge]; simpl.
    + rewrite list_lookup_insert_ne by exact Hn. reflexivity.
    + destruct (Nat.lt_ge_cases (Z.to_nat j) (length (elems a))) as [Hj'|Hj'].
      * rewrite lookup_app_l by exact Hj'. reflexivity.
      * rewrite lookup_app_r by exact Hj'.
        rewrite (lookup_ge_None_2 (elems a)) by exact Hj'.
        destruct (Nat.lt_ge_cases (Z.to_nat j - length (elems a))
                    (Z.to_nat i - length (elems a))) as [Hp|Hp].
        -- rewrite lookup_app_l by (rewrite length_replicate; exact Hp).
           rewrite lookup_replicate_2 by exact Hp. reflexivity.
        -- rewrite lookup_app_r by (rewrite length_replicate; exact Hp).
           rewrite length_replicate.
           destruct (Z.to_nat j - length (elems a)
                     - (Z.to_nat i - length (elems a)))%nat eqn:Hd; [lia|].
           reflexivity.
  - destruct (Z.to_nat i <? length (elems a))%nat; reflexivity.
  - simpl. reflexivity.
  - simpl. rewrite lookup_insert_ne by congruence. reflexivity.
Qed.

Lemma aset_board_of cells i c v :
  0 <= i -> cells !! Z.to_nat i = Some c ->
  Z.of_nat (length cells) < 2 ^ 32 ->
  aset (board_of cells) i (JStr v)
  = board_of (<[Z.to_nat i := Some v]> cells).
Proof.
  intros Hi Hc Hlen. pose proof (lookup_lt_Some _ _ _ Hc) as Hlt.
  unfold aset, board_of; simpl.
  replace (is_array_index i) with true
    by (symmetry; apply is_array_index_true; lia).
  rewrite length_map.
  destruct (Nat.ltb_spec (Z.to_nat i) (length cells)); [|lia].
  f_equal. change (map ?f ?l) with (f <$> l).
  rewrite list_fmap_insert. reflexivity.
Qed.

(** ** Clicking a square *)

(** The guard of [handleSquareClick] decides: a click is either rejected,
    and the state stays as it is, or accepted, and the board changes. *)
Lemma handleSquareClick_rejects s index :
  truthy (aget (board s) index) || truthy (winner s) = true ->
  handleSquareClick index s = s.
Proof. intros H. unfold handleSquareClick. rewrite H. reflexivity. Qed.

Lemma handleSquareClick_accepts s index :
  truthy (aget (board s) index) || truthy (winner s) = false ->
  board (handleSquareClick index s)
  = aset (spread (board s)) index (JStr (nextPlayer s)) /\
  nextPlayer (handleSquareClick index s) = toggle (nextPlayer s) /\
  board (handleSquareClick index s) <> board s.
Proof.
  intros H. unfold handleSquareClick. rewrite H. simpl.
  repeat split. intros Heq.
  apply orb_false_iff in H as [H _].
  rewrite <- Heq, aget_aset_eq in H. discriminate.
Qed.

Lemma full_board_cell_truthy cells index :
  length cells = 9%nat -> 0 <= index < 9 ->
  every_Boolean (board_of cells) = true ->
  truthy (aget (board_of cells) index) = true.
Proof.
  intros Hlen Hi Hfull. apply every_Boolean_board_of in Hfull.
  destruct (lookup_lt_is_Some_2 cells (Z.to_nat index)) as [c Hc]; [lia|].
  rewrite (aget_board_of cells index c) by (try exact Hc; lia).
  rewrite Forall_forall in Hfull.
  destruct (Hfull c) as [m ->]; [|reflexivity].
  eapply list_elem_of_lookup_2. exact Hc.
Qed.

(** C1, as it is stated, fails for an index outside 0..8: nothing in
    [handleSquareClick] tests the range.  On the empty board a click at
    index 9 appends a tenth element, and so it does on a full board without
    a winner (a draw). *)
Lemma handleSquareClick_out_of_range_counterexample :
  let drawn := State (board_of [Some X; Some O; Some X;
                                Some X; Some O; Some O;
                                Some O; Some X; Some X])
                     O true defaultNames defaultNames false 0 in
  ~ (0 <= 9 < 9) /\
  board (handleSquareClick 9 initial) <> board initial /\
  elems (board (handleSquareClick 9 initial))
  = replicate 9 (Some JNull) ++ [Some (JStr X)] /\
  isDraw drawn = true /\
  board (handleSquareClick 9 drawn) <> board drawn.
Proof.
  split; [lia|]. split; [vm_compute; discriminate|].
  split; [reflexivity|]. split; [reflexivity|]. vm_compute; discriminate.
Qed.

(** C1 (amended): for every state and index, if the target cell is
    non-empty, or the game is won, or the game is a draw on a 9-cell board
    and the index is one of 0..8, then [handleSquareClick] leaves the board,
    and with it the whole state, unchanged. *)
Theorem handleSquareClick_noop (s : state) (index : Z) :
  truthy (aget (board s) index) = true \/
  truthy (winner s) = true \/
  (isDraw s = true /\ 0 <= index < 9 /\
   exists cells, board s = board_of cells /\ length cells = 9%nat) ->
  handleSquareClick index s = s /\ board (handleSquareClick index s) = board s.
Proof.
  intros H.
  assert (Hguard : truthy (aget (board s) index) || truthy (winner s) = true).
  { destruct H as [H|[H|(Hd & Hi & cells & Hb & Hlen)]].
    - rewrite H. reflexivity.
    - rewrite H. apply orb_true_r.
    - unfold isDraw in Hd. apply andb_true_iff in Hd as [Hfull _].
      rewrite Hb in Hfull |- *.
      rewrite (full_board_cell_truthy cells index Hlen Hi Hfull). reflexivity. }
  rewrite (handleSquareClick_rejects s index Hguard). split; reflexivity.
Qed.

(** An occupied cell, a won game and a drawn game. *)
Lemma handleSquareClick_noop_witness :
  let occupied := State (board_of [Some X; None; None; None; None; None;
                                   None; None; None])
                        O true defaultNames defaultNames false 0 in
  let won := State (board_of [Some X; Some X; Some X; Some O; Some O; None;
                              None; None; None])
                   O true defaultNames defaultNames false 0 in
  let drawn := State (board_of [Some X; Some O; Some X;
                                Some X; Some O; Some O;
                                Some O; Some X; Some X])
                     O true defaultNames defaultNames false 0 in
  handleSquareClick 0 occupied = occupied /\
  handleSquareClick 8 won = won /\
  handleSquareClick 5 drawn = drawn.
Proof.
  intros occupied won drawn. split; [|split].
  - apply (handleSquareClick_noop occupied 0). left. reflexivity.
  - apply (handleSquareClick_noop won 8). right. left. reflexivity.
  - apply (handleSquareClick_noop drawn 5). right. right.
    split; [reflexivity|]. split; [lia|].
    eexists. split; reflexivity.
Defined.

(** C4: for every 9-cell board, every index in 0..8 whose cell is empty and
    every mark to move, when the game is not over, [handleSquareClick]
    produces a 9-cell board that holds the mark at the index and agrees with
    the board before at every other key. *)
Theorem handleSquareClick_places_mark
    (s : state) (cells : list (option mark)) (index : Z) :
  board s = board_of cells -> length cells = 9%nat ->
  0 <= index < 9 ->
  aget (board s) index = JNull ->
  truthy (winner s) = false -> isDraw s = false ->
  let s' := handleSquareClick index s in
  board s' = board_of (<[Z.to_nat index := Some (nextPlayer s)]> cells) /\
  length (elems (board s')) = 9%nat /\
  aget (board s') index = JStr (nextPlayer s) /\
  (forall j, j <> index -> aget (board s') j = aget (board s) j).
Proof.
  intros Hb Hlen Hi Hempty Hwin _ s'.
  assert (Hguard : truthy (aget (board s) index) || truthy (winner s) = false)
    by (rewrite Hempty, Hwin; reflexivity).
  destruct (handleSquareClick_accepts s index Hguard) as (Hb' & _ & _).
  fold s' in Hb'. rewrite Hb, spread_board_of in Hb'.
  destruct (lookup_lt_is_Some_2 cells (Z.to_nat index)) as [c Hc]; [lia|].
  split; [|split; [|split]].
  - rewrite Hb'. apply (aset_board_of cells index c); [lia|exact Hc|lia].
  - rewrite Hb', (aset_board_of cells index c) by (try exact Hc; lia).
    simpl. rewrite length_map, length_insert. exact Hlen.
  - rewrite Hb'. apply aget_aset_eq.
  - intros j Hj. rewrite Hb', Hb. apply aget_aset_ne. exact Hj.
Qed.

Lemma handleSquareClick_places_mark_witness :
  let s := State (board_of [Some X; None; None; None; Some O; None;
                            None; None; None])
                 X true defaultNames defaultNames false 0 in
  board (handleSquareClick 8 s)
  = board_of [Some X; None; None; None; Some O; None; None; None; Some X].
Proof.
  intros s.
  apply (handleSquareClick_places_mark s
           [Some X; None; None; None; Some O; None; None; None; None] 8);
    first [reflexivity|lia].
Defined.

(** ** Turns *)

Lemma toggle_turn_after n : toggle (turn_after n) = turn_after (S n).
Proof.
  unfold turn_after. rewrite Nat.even_succ, <- Nat.negb_even.
  destruct (Nat.even n); reflexivity.
Qed.

Lemma count_marks_insert cells n m :
  cells !! n = Some None ->
  count_marks (<[n := Some m]> cells) = S (count_marks cells).
Proof.
  revert n. induction cells as [|c cells IH]; intros [|n] H;
    try discriminate; simpl in *.
  - injection H as ->. reflexivity.
  - rewrite (IH n H). destruct c; reflexivity.
Qed.

Lemma emptyBoard_cells : emptyBoard = board_of (replicate 9 None).
Proof. reflexivity. Qed.

Lemma initial_ok : state_ok initial.
Proof.
  exists (replicate 9 None). repeat split; simpl; lia.
Qed.

(** A click at one of the nine squares keeps the invariant. *)
Lemma handleSquareClick_ok s index :
  state_ok s -> 0 <= index < 9 -> state_ok (handleSquareClick index s).
Proof.
  intros (cells & Hb & Hlen & Hturn & Hsel) Hi.
  destruct (truthy (aget (board s) index) || truthy (winner s)) eqn:Hguard.
  - rewrite handleSquareClick_rejects by exact Hguard.
    exists cells. auto.
  - destruct (handleSquareClick_accepts s index Hguard) as (Hb' & Hn' & _).
    destruct (lookup_lt_is_Some_2 cells (Z.to_nat index)) as [c Hc]; [lia|].
    apply orb_false_iff in Hguard as [Hcell _].
    rewrite Hb, (aget_board_of cells index c) in Hcell by (try exact Hc; lia).
    destruct c as [m|]; [discriminate|].
    exists (<[Z.to_nat index := Some (nextPlayer s)]> cells).
    split; [|split; [|split]].
    + rewrite Hb', Hb, spread_board_of.
      apply (aset_board_of cells index None); [lia|exact Hc|lia].
    + rewrite length_insert. exact Hlen.
    + rewrite Hn', Hturn, count_marks_insert by exact Hc.
      apply toggle_turn_after.
    + unfold handleSquareClick.
      destruct (truthy (aget (board s) index) || truthy (winner s));
        exact Hsel.
Qed.

Lemma rendered_in_range s index :
  state_ok s -> rendered s index -> 0 <= index < 9.
Proof.
  intros (cells & Hb & Hlen & _) [H0 [v Hv]].
  apply lookup_lt_Some in Hv.
  rewrite Hb in Hv. simpl in Hv. rewrite length_map in Hv. lia.
Qed.

Lemma moveSelection_ok delta s :
  -3 <= delta <= 3 -> state_ok s -> state_ok (moveSelection delta s).
Proof.
  intros Hd (cells & Hb & Hlen & Hturn & Hsel).
  exists cells. repeat split; try assumption; simpl.
  - apply Z.rem_nonneg; lia.
  - apply Z.rem_bound_pos; lia.
Qed.

Lemma step_ok s e : state_ok s -> deliverable s e -> state_ok (step s e).
Proof.
  intros Hok Hd. destruct e as [index| | | | |k inField|v|v|]; simpl.
  - apply handleSquareClick_ok; [exact Hok|].
    eapply rendered_in_range; eassumption.
  - exists (replicate 9 None). repeat split; simpl; lia.
  - destruct Hok as (cells & ?). exists cells. assumption.
  - destruct Hok as (cells & ?). exists cells. assumption.
  - exists (replicate 9 None). repeat split; simpl; lia.
  - unfold handleBoardKeyDown.
    destruct (negb (isStarted s)); [exact Hok|].
    destruct inField; [exact Hok|].
    destruct k; try (apply moveSelection_ok; [lia|exact Hok]);
      try exact Hok.
    + destruct Hok as (cells & ? & ? & ? & ?). exists cells.
      repeat split; simpl; try assumption; lia.
    + destruct Hok as (cells & ? & ? & ? & ?). exists cells.
      repeat split; simpl; try assumption; lia.
    + apply handleSquareClick_ok; [exact Hok|].
      destruct Hok as (cells & ? & ? & ? & ?). assumption.
    + apply handleSquareClick_ok; [exact Hok|].
      destruct Hok as (cells & ? & ? & ? & ?). assumption.
  - destruct Hok as (cells & ?). exists cells. assumption.
  - destruct Hok as (cells & ?). exists cells. assumption.
  - destruct Hok as (cells & ?). exists cells. assumption.
Qed.

Lemma reachable_ok s : reachable s -> state_ok s.
Proof.
  induction 1 as [|s e _ IH Hd]; [apply initial_ok|].
  apply step_ok; assumption.
Qed.

(** C6: X is to move in the fresh state; in every state reachable from it
    the mark to move is the one that strict alternation from X gives for the
    number of marks on the board (X on an empty board); and a click on a
    square, whatever the index, toggles the mark to move when it changes the
    board and leaves it, with the whole state, as it is when it does not. *)
Theorem nextPlayer_alternates :
  nextPlayer initial = X /\
  forall s : state,
    reachable s ->
    (exists cells,
        board s = board_of cells /\ length cells = 9%nat /\
        nextPlayer s = turn_after (count_marks cells)) /\
    forall index : Z,
      let s' := handleSquareClick index s in
      (board s' <> board s -> nextPlayer s' = toggle (nextPlayer s)) /\
      (board s' = board s -> s' = s /\ nextPlayer s' = nextPlayer s).
Proof.
  split; [reflexivity|]. intros s Hreach. split.
  - destruct (reachable_ok s Hreach) as (cells & Hb & Hlen & Hturn & _).
    exists cells. auto.
  - intros index s'. subst s'.
    destruct (truthy (aget (board s) index) || truthy (winner s)) eqn:Hguard.
    + rewrite handleSquareClick_rejects by exact Hguard.
      split; [intros H; exfalso; apply H; reflexivity|auto].
    + destruct (handleSquareClick_accepts s index Hguard) as (_ & Hn & Hne).
      split; [intros _; exact Hn|]. intros Heq. exfalso. exact (Hne Heq).
Qed.

(** After "Start game", X at the centre and a second click on the centre,
    O is to move. *)
Lemma nextPlayer_alternates_witness :
  let s := run initial [ClickStartDefault; ClickSquare 4] in
  reachable s /\
  (exists cells,
      board s = board_of cells /\ length cells = 9%nat /\
      nextPlayer s = turn_after (count_marks cells)) /\
  nextPlayer (handleSquareClick 4 s) = O.
Proof.
  intros s.
  assert (Hreach : reachable s).
  { apply (reachable_step _ (ClickSquare 4)).
    - apply (reachable_step _ ClickStartDefault); [constructor|exact I].
    - split; [lia|]. eexists. reflexivity. }
  split; [exact Hreach|].
  destruct (proj2 nextPlayer_alternates s Hreach) as [Hturn Hclick].
  split; [exact Hturn|].
  apply (proj2 (Hclick 4)). reflexivity.
Defined.

(** ** Restart *)

(** C7: whatever the state before, [handleReset] leaves a board of exactly
    nine empty cells and X to move; the state is a fresh one in progress:
    no winner, no draw, and the status line names the player of X as the
    next one. *)
Theorem handleReset_fresh (s : state) :
  board (handleReset s) = board_of (replicate 9 None) /\
  elems (board (handleReset s)) = replicate 9 (Some JNull) /\
  board (handleReset s) = board initial /\
  nextPlayer (handleReset s) = X /\
  winner (handleReset s) = JNull /\
  isDraw (handleReset s) = false /\
  status (handleReset s)
  = lit "Next player: " ++ str_or (nameX (players s)) (lit "X").
Proof. repeat split. Qed.

(** C10: [handleReset] writes the board, the mark to move and the selected
    index and nothing else: the players' names, the started flag, the name
    inputs and the state of the name editor are those of the state
    before. *)
Theorem handleReset_frame (s : state) :
  players (handleReset s) = players s /\
  isStarted (handleReset s) = isStarted s /\
  nameInputs (handleReset s) = nameInputs s /\
  isNameEditorOpen (handleReset s) = isNameEditorOpen s /\
  handleReset s
  = State emptyBoard X (isStarted s) (players s) (nameInputs s)
          (isNameEditorOpen s) 0.
Proof. repeat split. Qed.

(** ** The scenario *)

(** C8, as it is stated, fails: after the five moves no line is complete
    (the diagonal 2-4-6 lacks cell 6, the diagonal 0-4-8 starts with O), and
    [getWinner] returns [null], not X. *)
Lemma scenario_winner_counterexample :
  board (run initial scenario)
  = board_of [Some O; Some O; Some X; None; Some X; None; None; None; Some X]
  /\ getWinner (board (run initial scenario)) = JNull
  /\ getWinner (board (run initial scenario)) <> JStr X.
Proof.
  split; [reflexivity|]. split; [reflexivity|]. vm_compute. discriminate.
Qed.

(** C8 (amended): from an empty board with X to move, X at 4, O at 0, X at
    8, O at 1, X at 2 yield the board [O,O,X,_,X,_,_,_,X], and [getWinner]
    returns [null] on it. *)
Theorem scenario_board (s : state) :
  board s = emptyBoard -> nextPlayer s = X ->
  board (run s scenario)
  = board_of [Some O; Some O; Some X; None; Some X; None; None; None; Some X]
  /\ getWinner (board (run s scenario)) = JNull.
Proof.
  destruct s as [b n st pl ni ed sel]. cbn [board nextPlayer].
  intros -> ->. split; vm_compute; reflexivity.
Qed.

Lemma scenario_board_witness :
  board (run (handleStartDefault initial) scenario)
  = board_of [Some O; Some O; Some X; None; Some X; None; None; None; Some X]
  /\ getWinner (board (run (handleStartDefault initial) scenario)) = JNull.
Proof.
  apply (scenario_board (handleStartDefault initial)); reflexivity.
Defined.

(** ** Trimming and the players' names *)

Lemma trimStart_split s :
  exists pre, s = pre ++ trimStart s /\ forallb is_ws pre = true.
Proof.
  induction s as [|c s (pre & Hs & Hpre)]; [exists []; split; reflexivity|].
  cbn [trimStart]. destruct (is_ws c) eqn:Hc.
  - exists (c :: pre). split; [simpl; f_equal; exact Hs|].
    cbn [forallb]. rewrite Hc, Hpre. reflexivity.
  - exists []. split; reflexivity.
Qed.

Lemma trimStart_head s c : head (trimStart s) = Some c -> is_ws c = false.
Proof.
  induction s as [|d s IH]; cbn [trimStart]; [discriminate|].
  destruct (is_ws d) eqn:Hd; [exact IH|].
  simpl. intros [= <-]. exact Hd.
Qed.

Lemma trimStart_nil s : trimStart s = [] <-> forallb is_ws s = true.
Proof.
  induction s as [|c s IH]; cbn [trimStart forallb]; [tauto|].
  destruct (is_ws c); simpl; [exact IH|]. split; discriminate.
Qed.

Lemma forallb_rev {A} (f : A -> bool) l : forallb f (rev l) = forallb f l.
Proof.
  induction l as [|a l IH]; [reflexivity|].
  cbn [rev forallb]. rewrite forallb_app, IH. simpl.
  rewrite andb_true_r. apply andb_comm.
Qed.

Lemma last_rev {A} (l : list A) : last (rev l) = head l.
Proof. destruct l as [|a l]; [reflexivity|]. simpl. apply last_snoc. Qed.

Lemma rev_eq_nil {A} (l : list A) : rev l = [] <-> l = [].
Proof.
  split; [|intros ->; reflexivity].
  intros H. apply (f_equal (@rev A)) in H. rewrite rev_involutive in H.
  exact H.
Qed.

Lemma trim_nil s : trim s = [] <-> forallb is_ws s = true.
Proof.
  unfold trim, trimEnd.
  destruct (trimStart_split s) as (pre & Hs & Hpre). split.
  - intros H. apply rev_eq_nil, trimStart_nil in H.
    rewrite forallb_rev in H.
    rewrite Hs, forallb_app, Hpre, H. reflexivity.
  - intros H. apply trimStart_nil in H. rewrite H. reflexivity.
Qed.

(** [trim] removes the white space at both ends and nothing else. *)
Lemma trim_spec s : is_trim_of s (trim s).
Proof.
  destruct (trimStart_split s) as (pre & Hs & Hpre).
  destruct (trimStart_split (rev (trimStart s))) as (tsop & Hr & Hpost).
  assert (Hmid : trimStart s = trim s ++ rev tsop).
  { unfold trim, trimEnd. rewrite <- rev_app_distr, <- Hr, rev_involutive.
    reflexivity. }
  exists pre, (rev tsop). split; [|split; [|split; [|split]]].
  - rewrite <- Hmid. exact Hs.
  - exact Hpre.
  - rewrite forallb_rev. exact Hpost.
  - intros c Hc. apply (trimStart_head s).
    rewrite Hmid. destruct (trim s); [discriminate|exact Hc].
  - intros c Hc. unfold trim, trimEnd in Hc. rewrite last_rev in Hc.
    eapply trimStart_head. exact Hc.
Qed.

(** C9: for every pair of name inputs and each mark, "Start with names"
    gives the player the trimmed input (the input without its leading and
    trailing white space, a non-empty string) when the input has a
    character that is not white space, and the default name otherwise:
    "Player 1" for X and "Player 2" for O. *)
Theorem handleStartWithNames_names (s : state) (m : mark) :
  let input := name_of (nameInputs s) m in
  let assigned := name_of (players (handleStartWithNames s)) m in
  (forallb is_ws input = false ->
   assigned = trim input /\ assigned <> [] /\ is_trim_of input assigned) /\
  (forallb is_ws input = true -> assigned = name_of defaultNames m) /\
  name_of defaultNames X = lit "Player 1" /\
  name_of defaultNames O = lit "Player 2".
Proof.
  intros input assigned.
  assert (Hassigned : assigned = str_or (trim input) (name_of defaultNames m))
    by (destruct m; reflexivity).
  split; [|split; [|split; reflexivity]].
  - intros Hws.
    assert (Hne : trim input <> []).
    { intros H. apply trim_nil in H. congruence. }
    assert (Heq : assigned = trim input).
    { rewrite Hassigned. destruct (trim input); [congruence|reflexivity]. }
    rewrite Heq. split; [reflexivity|]. split; [exact Hne|apply trim_spec].
  - intros Hws. apply trim_nil in Hws. rewrite Hassigned, Hws. reflexivity.
Qed.

(** The inputs ["  Ann "] for X and [" "], a tab and a line feed for O. *)
Lemma handleStartWithNames_names_witness :
  let s := changeNameO [32; 9; 10]%N (changeNameX (lit "  Ann ") initial) in
  players (handleStartWithNames s) = Names (lit "Ann") (lit "Player 2").
Proof.
  intros s.
  pose proof (proj1 (handleStartWithNames_names s X) eq_refl) as (HX & _).
  pose proof (proj1 (proj2 (handleStartWithNames_names s O)) eq_refl) as HO.
  destruct (players (handleStartWithNames s)) as [x o].
  cbn [name_of nameX nameO] in HX, HO. rewrite HX, HO. reflexivity.
Defined.

(** * Further properties of the component *)

(** ** The winning line and the winner *)

Lemma scan_lines_find b lines :
  match find (line_hit b) lines with
  | Some (a, _, _) => scan_lines lines b = aget b a
  | None => scan_lines lines b = JNull
  end.
Proof.
  induction lines as [|[[i j] k] rest IH]; cbn [find scan_lines];
    [reflexivity|].
  destruct (line_hit b (i, j, k)); [reflexivity|exact IH].
Qed.

Lemma find_first_split {A} (f : A -> bool) l x :
  find f l = Some x ->
  exists pre post,
    l = pre ++ x :: post /\ (forall y, In y pre -> f y = false).
Proof.
  induction l as [|a l IH]; cbn [find]; [discriminate|].
  destruct (f a) eqn:Ha.
  - intros [= <-]. exists [], l. split; [reflexivity|intros y []].
  - intros H. destruct (IH H) as (pre & post & -> & Hpre).
    exists (a :: pre), post. split; [reflexivity|].
    intros y [<-|Hy]; auto.
Qed.

(** X1: the memo [winningLine], which decides the highlighted squares, and
    [getWinner] run the same test over the same lines: there is a winning
    line exactly when there is a winner; the winning line is the first
    complete line of [WINNING_LINES], its three cells hold the winner's
    mark, and so does every highlighted square. *)
Theorem winningLine_agrees_with_winner (s : state) :
  (winningLine s = None <-> winner s = JNull) /\
  (forall line,
      winningLine s = Some line ->
      (exists m, winner s = JStr m /\ complete (board s) line m) /\
      exists pre post,
        WINNING_LINES = pre ++ line :: post /\
        forall l m, In l pre -> ~ complete (board s) l m) /\
  (forall index,
      squareHighlight s index = true ->
      truthy (winner s) = true /\ aget (board s) index = winner s).
Proof.
  assert (Hline : forall line,
             winningLine s = Some line ->
             exists m, winner s = JStr m /\ complete (board s) line m).
  { intros [[a b] c] Hfind. unfold winningLine in Hfind.
    pose proof (scan_lines_find (board s) WINNING_LINES) as Hscan.
    rewrite Hfind in Hscan.
    apply find_some in Hfind as [_ Hhit].
    apply line_hit_complete in Hhit as [m Hm].
    exists m. split; [|exact Hm].
    unfold winner, getWinner. rewrite Hscan. eapply complete_first, Hm. }
  split; [|split].
  - pose proof (scan_lines_find (board s) WINNING_LINES) as Hscan.
    unfold winner, getWinner.
    destruct (winningLine s) as [line|] eqn:Hfind.
    + destruct (Hline line eq_refl) as (m & Hw & _).
      unfold winner, getWinner in Hw. rewrite Hw. split; discriminate.
    + unfold winningLine in Hfind. rewrite Hfind in Hscan.
      rewrite Hscan. split; reflexivity.
  - intros line Hfind. split; [apply Hline; exact Hfind|].
    destruct (find_first_split _ _ _ Hfind) as (pre & post & Hsplit & Hpre).
    exists pre, post. split; [exact Hsplit|].
    intros l m Hin. apply line_hit_false. apply Hpre. exact Hin.
  - intros index Hhl. unfold squareHighlight in Hhl.
    destruct (winningLine s) as [[[a b] c]|] eqn:Hfind; [|discriminate].
    destruct (Hline _ eq_refl) as (m & Hw & Ha & Hb & Hc).
    rewrite Hw. split; [reflexivity|].
    apply orb_true_iff in Hhl as [Hhl|Hhl];
      [apply orb_true_iff in Hhl as [Hhl|Hhl]|];
      apply Z.eqb_eq in Hhl; subst index; assumption.
Qed.

(** On a board with two complete lines the first one, column 2, is the
    winning line, and the squares 2, 5 and 8 are highlighted with X. *)
Lemma winningLine_agrees_with_winner_witness :
  let s := State (board_of [Some O; Some O; Some X;
                            Some O; Some X; Some X;
                            Some X; Some O; Some X])
                 O true defaultNames defaultNames false 0 in
  winningLine s = Some (2, 5, 8) /\ winner s = JStr X /\
  aget (board s) 5 = winner s.
Proof.
  intros s.
  destruct (winningLine_agrees_with_winner s) as (_ & Hline & Hhl).
  split; [reflexivity|].
  destruct (Hline (2, 5, 8) eq_refl) as ((m & Hw & Hc) & _).
  destruct (Hhl 5 eq_refl) as [_ H5].
  split; [|exact H5]. rewrite Hw. f_equal.
  destruct Hc as (H2 & _). vm_compute in H2. congruence.
Defined.

(** ** What the render shows against what the handlers do *)

(** X10: a square is rendered disabled exactly when a click on it would do
    nothing: the [disabled] prop is true if and only if [handleSquareClick]
    returns the state as it is, and false if and only if the click changes
    the board. *)
Theorem squareDisabled_iff_noop (s : state) (index : Z) :
  (squareDisabled s index = true <-> handleSquareClick index s = s) /\
  (squareDisabled s index = false <->
   board (handleSquareClick index s) <> board s).
Proof.
  unfold squareDisabled.
  destruct (truthy (aget (board s) index) || truthy (winner s)) eqn:Hguard.
  - pose proof (handleSquareClick_rejects s index Hguard) as Hrej.
    split; split; try reflexivity; try discriminate.
    + intros _. exact Hrej.
    + intros Hne. exfalso. apply Hne. rewrite Hrej. reflexivity.
  - destruct (handleSquareClick_accepts s index Hguard) as (_ & _ & Hne).
    split; split; try reflexivity.
    + discriminate.
    + intros Heq. exfalso. apply Hne. rewrite Heq. reflexivity.
    + intros _. exact Hne.
Qed.

Lemma resetLabel_strings_distinct : lit "Play again" <> lit "Restart".
Proof. vm_compute. congruence. Qed.

(** X11: the restart button and the status line agree on whether the game
    is over: the button reads "Play again" exactly when the status line is
    not the "Next player" one, and "Restart" exactly when it is. *)
Theorem resetLabel_agrees_with_status (s : state) :
  let next :=
    lit "Next player: "
    ++ str_or (name_of (players s) (nextPlayer s)) (mark_str (nextPlayer s)) in
  (resetLabel s = lit "Play again" <-> status s <> next) /\
  (resetLabel s = lit "Restart" <-> status s = next).
Proof.
  intros next. subst next. unfold resetLabel, status, getStatus, isDraw, winner.
  set (name := str_or _ _).
  destruct (getWinner (board s)) as [| |m] eqn:Hw; cbn [truthy negb orb];
    rewrite ?andb_true_r, ?andb_false_r.
  - destruct (every_Boolean (board s)); cbn [val_str].
    + split; split; intros H; try reflexivity.
      * apply (proj1 (proj2 (proj2 (status_strings_distinct name X X)))).
      * exfalso. apply resetLabel_strings_distinct. exact H.
      * exfalso.
        apply (proj1 (proj2 (proj2 (status_strings_distinct name X X)))).
        exact H.
    + split; split; intros H; try reflexivity.
      * exfalso. apply resetLabel_strings_distinct. symmetry. exact H.
      * exfalso. apply H. reflexivity.
  - destruct (every_Boolean (board s)); cbn [val_str].
    + split; split; intros H; try reflexivity.
      * apply (proj1 (proj2 (proj2 (status_strings_distinct name X X)))).
      * exfalso. apply resetLabel_strings_distinct. exact H.
      * exfalso.
        apply (proj1 (proj2 (proj2 (status_strings_distinct name X X)))).
        exact H.
    + split; split; intros H; try reflexivity.
      * exfalso. apply resetLabel_strings_distinct. symmetry. exact H.
      * exfalso. apply H. reflexivity.
  - cbn [val_str]. split; split; intros H; try reflexivity.
    + apply (proj1 (proj2 (status_strings_distinct name m m))).
    + exfalso. apply resetLabel_strings_distinct. exact H.
    + exfalso.
      apply (proj1 (proj2 (status_strings_distinct name m m))). exact H.
Qed.

(** ** Moving the selection with the keyboard *)



Lemma selected_cases (z : Z) :
  0 <= z < 9 ->
  z = 0 \/ z = 1 \/ z = 2 \/ z = 3 \/ z = 4 \/ z = 5 \/ z = 6 \/ z = 7 \/ z = 8.
Proof. lia. Qed.

(** X3: in a started game, with the focus outside a text field and a
    selected square in 0..8, the arrow keys undo each other (up then down,
    down then up, left then right, right then left give back the state),
    the vertical arrows keep the column of the selection, and no arrow key
    touches the board or the mark to move. *)
Theorem arrow_keys_round_trip (s : state) :
  isStarted s = true -> 0 <= selectedIndex s < 9 ->
  handleBoardKeyDown ArrowDown false (handleBoardKeyDown ArrowUp false s) = s /\
  handleBoardKeyDown ArrowUp false (handleBoardKeyDown ArrowDown false s) = s /\
  handleBoardKeyDown ArrowRight false (handleBoardKeyDown ArrowLeft false s) = s /\
  handleBoardKeyDown ArrowLeft false (handleBoardKeyDown ArrowRight false s) = s /\
  selectedIndex (handleBoardKeyDown ArrowUp false s) mod 3
  = selectedIndex s mod 3 /\
  selectedIndex (handleBoardKeyDown ArrowDown false s) mod 3
  = selectedIndex s mod 3 /\
  (forall k, In k [ArrowUp; ArrowDown; ArrowLeft; ArrowRight] ->
             board (handleBoardKeyDown k false s) = board s /\
             nextPlayer (handleBoardKeyDown k false s) = nextPlayer s).
Proof.
  destruct s as [b n st pl ni ed sel]. cbn [isStarted selectedIndex].
  intros -> Hsel.
  unfold handleBoardKeyDown, moveSelection;
    cbn [negb isStarted selectedIndex board nextPlayer players nameInputs
         isNameEditorOpen].
  split; [|split; [|split; [|split; [|split; [|split]]]]];
    try (apply selected_cases in Hsel;
         repeat (destruct Hsel as [->|Hsel]); try subst sel; reflexivity).
  intros k Hk.
  repeat (destruct Hk as [<-|Hk]; [split; reflexivity|]). destruct Hk.
Qed.

Lemma arrow_keys_round_trip_witness :
  let s := setSelectedIndex 1 (handleStartDefault initial) in
  selectedIndex (handleBoardKeyDown ArrowUp false s) = 7 /\
  handleBoardKeyDown ArrowDown false (handleBoardKeyDown ArrowUp false s) = s.
Proof.
  intros s. split; [reflexivity|].
  apply (arrow_keys_round_trip s); [reflexivity|cbn; lia].
Defined.

(** ** Reachable states *)

Lemma reachable_run s es :
  reachable s -> deliverable_all s es -> reachable (run s es).
Proof.
  revert s. induction es as [|e es IH]; intros s Hs Hd; [exact Hs|].
  destruct Hd as [He Hes]. apply IH; [|exact Hes].
  apply reachable_step; assumption.
Qed.

Lemma drawn_game_reachable : reachable (run initial drawn_game).
Proof.
  apply reachable_run; [constructor|].
  unfold drawn_game. cbn [deliverable_all deliverable]. unfold rendered.
  repeat split; try lia; eexists; vm_compute; reflexivity.
Qed.

Lemma aget_board_of_cases cells i :
  length cells = 9%nat -> 0 <= i < 9 ->
  (cells !! Z.to_nat i = Some None /\ aget (board_of cells) i = JNull) \/
  (exists m, cells !! Z.to_nat i = Some (Some m) /\
             aget (board_of cells) i = JStr m).
Proof.
  intros Hlen Hi.
  destruct (lookup_lt_is_Some_2 cells (Z.to_nat i)) as [c Hc]; [lia|].
  rewrite (aget_board_of cells i c) by (try exact Hc; lia).
  destruct c as [m|]; [right; exists m|left]; split; auto.
Qed.



(** ** Cells once set, and games once over *)

Lemma aget_spread a j : is_array_index j = true -> aget (spread a) j = aget a j.
Proof.
  intros Hj. unfold aget, spread. rewrite Hj. cbn [elems].
  rewrite list_lookup_fmap.
  destruct (elems a !! Z.to_nat j) as [[v|]|]; reflexivity.
Qed.

Lemma handleSquareClick_keeps s index j :
  is_array_index j = true -> truthy (aget (board s) j) = true ->
  aget (board (handleSquareClick index s)) j = aget (board s) j.
Proof.
  intros Hj Hocc.
  destruct (truthy (aget (board s) index) || truthy (winner s)) eqn:Hguard.
  - rewrite handleSquareClick_rejects by exact Hguard. reflexivity.
  - destruct (handleSquareClick_accepts s index Hguard) as (Hb & _ & _).
    rewrite Hb. apply orb_false_iff in Hguard as [Hcell _].
    assert (Hne : j <> index) by (intros ->; congruence).
    rewrite aget_aset_ne by exact Hne. apply aget_spread. exact Hj.
Qed.

(** X5: a cell that holds a mark keeps it until the board is cleared: in
    every state, no event other than "Restart" and "Exit to home" changes
    what an occupied element of the board holds, whatever the index
    clicked. *)
Theorem occupied_cell_stays (s : state) (e : event) (j : Z) :
  clears_board e = false ->
  is_array_index j = true ->
  truthy (aget (board s) j) = true ->
  aget (board (step s e)) j = aget (board s) j.
Proof.
  intros He Hj Hocc.
  destruct e as [index| | | | |k inField|v|v|]; try discriminate;
    try reflexivity.
  - apply handleSquareClick_keeps; assumption.
  - cbn [step]. unfold handleBoardKeyDown.
    destruct (negb (isStarted s)); [reflexivity|].
    destruct inField; [reflexivity|].
    destruct k; try reflexivity; apply handleSquareClick_keeps; assumption.
Qed.

(** O clicks on the centre that X holds, and X clicks far outside the
    board: the centre stays X's. *)
Lemma occupied_cell_stays_witness :
  let s := run initial [ClickSquare 4] in
  aget (board (step s (ClickSquare 4))) 4 = JStr X /\
  aget (board (step s (ClickSquare 12))) 4 = JStr X.
Proof.
  intros s. split.
  - rewrite (occupied_cell_stays s (ClickSquare 4) 4); reflexivity.
  - rewrite (occupied_cell_stays s (ClickSquare 12) 4); reflexivity.
Defined.

Lemma game_over_click s index :
  state_ok s -> 0 <= index < 9 ->
  truthy (winner s) = true \/ isDraw s = true ->
  handleSquareClick index s = s.
Proof.
  intros (cells & Hb & Hlen & _) Hi Hover.
  apply handleSquareClick_rejects.
  destruct Hover as [Hw|Hd]; [rewrite Hw; apply orb_true_r|].
  unfold isDraw in Hd. apply andb_true_iff in Hd as [Hfull _].
  rewrite Hb in Hfull |- *.
  rewrite (full_board_cell_truthy cells index Hlen Hi Hfull). reflexivity.
Qed.

(** X6: a finished game stays as it is until it is restarted: in a
    reachable state with a winner or a draw, every event of the page other
    than "Restart"/"Play again" and "Exit to home" (clicks on squares, keys,
    the name form) leaves the board and the mark to move unchanged. *)
Theorem game_over_frozen (s : state) (e : event) :
  reachable s -> deliverable s e ->
  truthy (winner s) = true \/ isDraw s = true ->
  clears_board e = false ->
  board (step s e) = board s /\ nextPlayer (step s e) = nextPlayer s.
Proof.
  intros Hreach Hd Hover He. pose proof (reachable_ok s Hreach) as Hok.
  destruct e as [index| | | | |k inField|v|v|]; try discriminate;
    try (split; reflexivity).
  - cbn [step]. rewrite (game_over_click s index Hok); auto.
    eapply rendered_in_range; eassumption.
  - cbn [step]. unfold handleBoardKeyDown.
    destruct (negb (isStarted s)); [split; reflexivity|].
    destruct inField; [split; reflexivity|].
    assert (Hsel : 0 <= selectedIndex s < 9)
      by (destruct Hok as (cells & _ & _ & _ & H); exact H).
    destruct k; try (split; reflexivity);
      rewrite (game_over_click s (selectedIndex s) Hok); auto.
Qed.

(** After the drawn game a click on a square and the Enter key change
    nothing. *)
Lemma game_over_frozen_witness :
  let s := run initial drawn_game in
  isDraw s = true /\
  board (step s (ClickSquare 3)) = board s /\
  nextPlayer (step s (KeyDown Enter false)) = nextPlayer s.
Proof.
  intros s.
  assert (Hdraw : isDraw s = true) by (vm_compute; reflexivity).
  split; [exact Hdraw|]. split.
  - apply (game_over_frozen s (ClickSquare 3) drawn_game_reachable).
    + split; [lia|]. eexists. vm_compute. reflexivity.
    + right. exact Hdraw.
    + reflexivity.
  - apply (game_over_frozen s (KeyDown Enter false) drawn_game_reachable).
    + exact I.
    + right. exact Hdraw.
    + reflexivity.
Defined.

(** ** What a step does to the game *)

Lemma click_cases s cells index :
  board s = board_of cells -> length cells = 9%nat -> 0 <= index < 9 ->
  handleSquareClick index s = s \/
  (cells !! Z.to_nat index = Some None /\
   truthy (winner s) = false /\
   board (handleSquareClick index s)
   = board_of (<[Z.to_nat index := Some (nextPlayer s)]> cells) /\
   nextPlayer (handleSquareClick index s) = toggle (nextPlayer s) /\
   selectedIndex (handleSquareClick index s) = selectedIndex s).
Proof.
  intros Hb Hlen Hi.
  destruct (truthy (aget (board s) index) || truthy (winner s)) eqn:Hguard.
  - left. apply handleSquareClick_rejects. exact Hguard.
  - right.
    destruct (handleSquareClick_accepts s index Hguard) as (Hb' & Hn' & _).
    apply orb_false_iff in Hguard as [Hcell Hwin].
    rewrite Hb in Hcell.
    destruct (aget_board_of_cases cells index Hlen Hi)
      as [[Hc Hv]|(m & Hc & Hv)]; [|rewrite Hv in Hcell; discriminate].
    split; [exact Hc|]. split; [exact Hwin|]. split; [|split; [exact Hn'|]].
    + rewrite Hb', Hb, spread_board_of.
      apply (aset_board_of cells index None); [lia|exact Hc|lia].
    + unfold handleSquareClick.
      destruct (truthy (aget (board s) index) || truthy (winner s));
        reflexivity.
Qed.

(** A deliverable event leaves the game as it is, clears it, or places the
    mark to move on an empty square of a game not yet won. *)
Lemma step_cases s e cells :
  board s = board_of cells -> length cells = 9%nat ->
  0 <= selectedIndex s < 9 -> deliverable s e ->
  0 <= selectedIndex (step s e) < 9 /\
  ((board (step s e) = board s /\ nextPlayer (step s e) = nextPlayer s) \/
   (board (step s e) = emptyBoard /\ nextPlayer (step s e) = X) \/
   (exists index,
       0 <= index < 9 /\ cells !! Z.to_nat index = Some None /\
       truthy (winner s) = false /\
       board (step s e)
       = board_of (<[Z.to_nat index := Some (nextPlayer s)]> cells) /\
       nextPlayer (step s e) = toggle (nextPlayer s))).
Proof.
  intros Hb Hlen Hsel Hd.
  assert (Hclick : forall index,
             0 <= index < 9 ->
             0 <= selectedIndex (handleSquareClick index s) < 9 /\
             ((board (handleSquareClick index s) = board s /\
               nextPlayer (handleSquareClick index s) = nextPlayer s) \/
              (board (handleSquareClick index s) = emptyBoard /\
               nextPlayer (handleSquareClick index s) = X) \/
              (exists index0,
                  0 <= index0 < 9 /\ cells !! Z.to_nat index0 = Some None /\
                  truthy (winner s) = false /\
                  board (handleSquareClick index s)
                  = board_of (<[Z.to_nat index0 := Some (nextPlayer s)]> cells)
                  /\ nextPlayer (handleSquareClick index s)
                     = toggle (nextPlayer s)))).
  { intros index Hi.
    destruct (click_cases s cells index Hb Hlen Hi)
      as [->|(Hc & Hw & Hb' & Hn' & Hs')].
    - split; [exact Hsel|]. left. split; reflexivity.
    - split; [rewrite Hs'; exact Hsel|]. right. right.
      exists index. auto. }
  destruct e as [index| | | | |k inField|v|v|]; cbn [step].
  - apply Hclick. destruct Hd as [H0 [v Hv]].
    apply lookup_lt_Some in Hv. rewrite Hb in Hv. simpl in Hv.
    rewrite length_map in Hv. lia.
  - split; [cbn; lia|]. right. left. split; reflexivity.
  - split; [exact Hsel|]. left. split; reflexivity.
  - split; [exact Hsel|]. left. split; reflexivity.
  - split; [cbn; lia|]. right. left. split; reflexivity.
  - unfold handleBoardKeyDown.
    destruct (negb (isStarted s)); [split; [exact Hsel|left; split; reflexivity]|].
    destruct inField; [split; [exact Hsel|left; split; reflexivity]|].
    destruct k;
      try (apply Hclick; exact Hsel);
      try (split; [exact Hsel|left; split; reflexivity]);
      try (split; [|left; split; reflexivity];
           cbn [moveSelection setSelectedIndex selectedIndex];
           first [lia
                 |split; [apply Z.rem_nonneg; lia|apply Z.rem_bound_pos; lia]]).
  - split; [exact Hsel|]. left. split; reflexivity.
  - split; [exact Hsel|]. left. split; reflexivity.
  - split; [exact Hsel|]. left. split; reflexivity.
Qed.

(** ** Marks and complete lines in play *)

Lemma winning_line_in_range i j k :
  In (i, j, k) WINNING_LINES -> 0 <= i < 9 /\ 0 <= j < 9 /\ 0 <= k < 9.
Proof.
  intros Hin. unfold WINNING_LINES in Hin.
  repeat (destruct Hin as [[= <- <- <-]|Hin]; [lia|]). destruct Hin.
Qed.

Lemma complete_wins b line m :
  In line WINNING_LINES -> complete b line m -> truthy (getWinner b) = true.
Proof.
  intros Hin Hc.
  destruct (getWinner_cases b) as [[_ Hno]|(l & m' & _ & _ & ->)];
    [|reflexivity].
  exfalso. exact (Hno line m Hin Hc).
Qed.

Lemma emptyBoard_no_line line m :
  In line WINNING_LINES -> ~ complete emptyBoard line m.
Proof.
  intros Hin Hc. pose proof (complete_wins _ _ _ Hin Hc) as H.
  vm_compute in H. discriminate.
Qed.

Lemma complete_after_move cells index p line m :
  length cells = 9%nat -> 0 <= index < 9 ->
  cells !! Z.to_nat index = Some None ->
  In line WINNING_LINES ->
  complete (board_of (<[Z.to_nat index := Some p]> cells)) line m ->
  m = p \/ complete (board_of cells) line m.
Proof.
  intros Hlen Hi Hc Hin Hcomp. destruct line as [[i j] k].
  rewrite <- (aset_board_of cells index None p) in Hcomp
    by (try exact Hc; lia).
  destruct Hcomp as (H1 & H2 & H3).
  destruct (Z.eq_dec i index) as [->|Hni];
    [rewrite aget_aset_eq in H1; left; congruence|].
  destruct (Z.eq_dec j index) as [->|Hnj];
    [rewrite aget_aset_eq in H2; left; congruence|].
  destruct (Z.eq_dec k index) as [->|Hnk];
    [rewrite aget_aset_eq in H3; left; congruence|].
  rewrite aget_aset_ne in H1, H2, H3 by assumption.
  right. repeat split; assumption.
Qed.

Ltac decide_marks :=
  repeat first [rewrite bool_decide_eq_true_2 by reflexivity
               |rewrite bool_decide_eq_false_2 by congruence].

Lemma count_of_insert cells n p m :
  cells !! n = Some None ->
  count_of m (<[n := Some p]> cells)
  = (count_of m cells + if bool_decide (p = m) then 1 else 0)%nat.
Proof.
  revert n. induction cells as [|c cells IH]; intros [|n] H;
    try discriminate; cbn in H.
  - injection H as ->. cbn [count_of].
    change (<[0%nat := Some p]> (None :: cells)) with (Some p :: cells).
    cbn [count_of].
    destruct p, m; decide_marks; lia.
  - change (<[S n := Some p]> (c :: cells))
      with (c :: <[n := Some p]> cells).
    cbn [count_of]. rewrite (IH n H). lia.
Qed.

Lemma count_of_le cells :
  (count_of X cells + count_of O cells <= length cells)%nat.
Proof.
  induction cells as [|[[|]|] cells IH]; cbn [count_of length];
    decide_marks; lia.
Qed.

Lemma toggle_involutive m : toggle (toggle m) = m.
Proof. destruct m; reflexivity. Qed.

Lemma initial_inv : game_inv initial.
Proof.
  exists (replicate 9 None). split; [reflexivity|]. split; [reflexivity|].
  split; [cbn; lia|]. split; [reflexivity|].
  intros line m Hin Hc. exfalso. exact (emptyBoard_no_line line m Hin Hc).
Qed.

Lemma step_inv s e : game_inv s -> deliverable s e -> game_inv (step s e).
Proof.
  intros (cells & Hb & Hlen & Hsel & Hbal & Hlast) Hd.
  destruct (step_cases s e cells Hb Hlen Hsel Hd)
    as [Hsel' [[Hb' Hn']|[[Hb' Hn']|(index & Hi & Hc & Hw & Hb' & Hn')]]].
  - exists cells. rewrite Hb', Hn'. auto.
  - exists (replicate 9 None). rewrite Hb', Hn'.
    split; [reflexivity|]. split; [reflexivity|]. split; [exact Hsel'|].
    split; [reflexivity|].
    intros line m Hin Hc. exfalso. exact (emptyBoard_no_line line m Hin Hc).
  - exists (<[Z.to_nat index := Some (nextPlayer s)]> cells).
    split; [exact Hb'|]. split; [rewrite length_insert; exact Hlen|].
    split; [exact Hsel'|]. split.
    + rewrite !count_of_insert by exact Hc. rewrite Hn', Hbal.
      destruct (nextPlayer s); decide_marks; cbn [turn_surplus toggle]; lia.
    + intros line m Hin Hcomp. rewrite Hn', toggle_involutive.
      rewrite Hb' in Hcomp.
      destruct (complete_after_move cells index _ line m Hlen Hi Hc Hin Hcomp)
        as [->|Hold]; [reflexivity|].
      exfalso. rewrite <- Hb in Hold.
      pose proof (complete_wins _ _ _ Hin Hold) as Hwin.
      unfold winner in Hw. congruence.
Qed.

Lemma reachable_inv s : reachable s -> game_inv s.
Proof.
  induction 1 as [|s e _ IH Hd]; [apply initial_inv|].
  apply step_inv; assumption.
Qed.

Lemma won_game_reachable : reachable (run initial won_game).
Proof.
  apply reachable_run; [constructor|].
  unfold won_game. cbn [deliverable_all deliverable]. unfold rendered.
  repeat split; try lia; eexists; vm_compute; reflexivity.
Qed.

(** X7: in play a complete line belongs to the player who has just moved:
    in every reachable state, if some winning line is complete with the mark
    [m], then [getWinner] returns [m] (so all complete lines hold the same
    mark) and the mark to move is the other one. *)
Theorem winner_is_last_mover (s : state) (line : Z * Z * Z) (m : mark) :
  reachable s ->
  In line WINNING_LINES -> complete (board s) line m ->
  winner s = JStr m /\ nextPlayer s = toggle m.
Proof.
  intros Hreach Hin Hc.
  destruct (reachable_inv s Hreach) as (cells & _ & _ & _ & _ & Hlast).
  pose proof (Hlast line m Hin Hc) as Hm.
  split; [|rewrite Hm, toggle_involutive; reflexivity].
  unfold winner.
  destruct (getWinner_cases (board s))
    as [[_ Hno]|(l' & m' & Hin' & Hc' & ->)].
  - exfalso. exact (Hno line m Hin Hc).
  - rewrite (Hlast l' m' Hin' Hc'), Hm. reflexivity.
Qed.

Lemma winner_is_last_mover_witness :
  winner (run initial won_game) = JStr X /\
  nextPlayer (run initial won_game) = O.
Proof.
  apply (winner_is_last_mover (run initial won_game) (0, 1, 2) X).
  - exact won_game_reachable.
  - left. reflexivity.
  - vm_compute. repeat split.
Defined.

(** X8: the marks on the board are balanced: in every reachable state the
    board is a 9-cell board on which X has as many marks as O when X is to
    move and one more when O is to move; X never has more than five marks
    and O never more than four. *)
Theorem marks_balanced (s : state) :
  reachable s ->
  exists cells,
    board s = board_of cells /\
    count_of X cells = (count_of O cells + turn_surplus (nextPlayer s))%nat /\
    (count_of X cells <= 5)%nat /\ (count_of O cells <= 4)%nat.
Proof.
  intros Hreach.
  destruct (reachable_inv s Hreach) as (cells & Hb & Hlen & _ & Hbal & _).
  exists cells. split; [exact Hb|]. split; [exact Hbal|].
  pose proof (count_of_le cells) as Hle. rewrite Hlen in Hle.
  destruct (nextPlayer s); cbn [turn_surplus] in Hbal; lia.
Qed.

Lemma marks_balanced_witness :
  exists cells,
    board (run initial won_game) = board_of cells /\
    count_of X cells
    = (count_of O cells + turn_surplus (nextPlayer (run initial won_game)))%nat.
Proof.
  destruct (marks_balanced _ won_game_reachable) as (cells & Hb & Hbal & _).
  exists cells. split; [exact Hb|exact Hbal].
Defined.

Lemma count_marks_full cells :
  (count_marks cells <= length cells)%nat /\
  (count_marks cells = length cells <-> Forall is_Some cells).
Proof.
  induction cells as [|[m|] cells [IHle IH]]; cbn [count_marks length].
  - split; [lia|]. split; [constructor|reflexivity].
  - split; [lia|]. rewrite Forall_cons. split.
    + intros H. split; [eauto|]. apply IH. lia.
    + intros [_ H]. apply IH in H. lia.
  - split; [lia|]. rewrite Forall_cons. split.
    + intros H. lia.
    + intros [[x Hx] _]. discriminate.
Qed.

(** X12: in every reachable state the game is a draw exactly when nine
    marks are on the board and there is no winner, and then the status line
    reads "Draw!". *)
Theorem draw_iff_nine_marks (s : state) (cells : list (option mark)) :
  reachable s -> board s = board_of cells ->
  (isDraw s = true <-> count_marks cells = 9%nat /\ winner s = JNull) /\
  (isDraw s = true -> status s = lit "Draw!").
Proof.
  intros Hreach Hb.
  assert (Hlen : length cells = 9%nat).
  { destruct (reachable_ok s Hreach) as (cells' & Hb' & Hlen' & _).
    rewrite Hb in Hb'. apply (f_equal (fun a => length (elems a))) in Hb'.
    simpl in Hb'. rewrite !length_map in Hb'. lia. }
  pose proof (every_Boolean_board_of cells) as Hfull.
  pose proof (proj2 (count_marks_full cells)) as Hcount.
  rewrite Hlen in Hcount. rewrite <- Hb in Hfull.
  unfold isDraw, status, getStatus, winner.
  destruct (getWinner_board_of cells) as [Hw|[m Hw]]; rewrite <- Hb in Hw;
    rewrite Hw; cbn [truthy negb].
  - rewrite andb_true_r. split; [|intros ->; reflexivity].
    rewrite Hfull, Hcount. split; [intros H; split; [exact H|reflexivity]|].
    intros [H _]. exact H.
  - rewrite andb_false_r. split; [|discriminate].
    split; [discriminate|]. intros [_ H]. discriminate.
Qed.

Lemma draw_iff_nine_marks_witness :
  isDraw (run initial drawn_game) = true /\
  status (run initial drawn_game) = lit "Draw!".
Proof.
  pose proof (draw_iff_nine_marks (run initial drawn_game)
                [Some X; Some O; Some X; Some X; Some O; Some O;
                 Some O; Some X; Some X]
                drawn_game_reachable eq_refl) as [Hiff Hstatus].
  assert (Hdraw : isDraw (run initial drawn_game) = true).
  { apply Hiff. split; reflexivity. }
  split; [exact Hdraw|exact (Hstatus Hdraw)].
Defined.

(** ** The players' names in play *)

Lemma trimStart_fixed t :
  (forall c, head t = Some c -> is_ws c = false) -> trimStart t = t.
Proof.
  destruct t as [|c t]; [reflexivity|]. intros H. cbn [trimStart].
  rewrite (H c eq_refl). reflexivity.
Qed.

Lemma trim_fixed t :
  (forall c, head t = Some c -> is_ws c = false) ->
  (forall c, last t = Some c -> is_ws c = false) ->
  trim t = t.
Proof.
  intros Hhead Hlast. unfold trim, trimEnd.
  rewrite (trimStart_fixed t Hhead).
  rewrite trimStart_fixed; [apply rev_involutive|].
  intros c Hc. apply Hlast. rewrite <- Hc, <- last_rev, rev_involutive.
  reflexivity.
Qed.

Lemma trim_idempotent s : trim (trim s) = trim s.
Proof.
  destruct (trim_spec s) as (pre & post & _ & _ & _ & Hhead & Hlast).
  apply trim_fixed; assumption.
Qed.

Lemma defaultNames_ok m : name_ok (name_of defaultNames m).
Proof. destruct m; split; vm_compute; congruence. Qed.

Lemma trimmed_or_default_ok input m :
  name_ok (str_or (trim input) (name_of defaultNames m)).
Proof.
  destruct (trim input) as [|c t] eqn:Ht; cbn [str_or].
  - apply defaultNames_ok.
  - split; [discriminate|]. rewrite <- Ht. apply trim_idempotent.
Qed.

Lemma step_players s e :
  (players (step s e) = players s) \/
  (forall m, name_ok (name_of (players (step s e)) m)).
Proof.
  destruct e as [index| | | | |k inField|v|v|]; cbn [step];
    try (left; reflexivity).
  - left. unfold handleSquareClick.
    destruct (truthy (aget (board s) index) || truthy (winner s));
      reflexivity.
  - right. intros m. apply defaultNames_ok.
  - right. intros [|]; cbn [handleStartWithNames players name_of nameX nameO].
    + apply (trimmed_or_default_ok _ X).
    + apply (trimmed_or_default_ok _ O).
  - left. unfold handleBoardKeyDown.
    destruct (negb (isStarted s)); [reflexivity|].
    destruct inField; [reflexivity|].
    destruct k; try reflexivity; unfold handleSquareClick;
      destruct (truthy (aget (board s) (selectedIndex s))
                || truthy (winner s)); reflexivity.
Qed.

(** X9: the players always have proper names: in every reachable state,
    whatever was typed in the name fields, both names are non-empty and
    carry no white space at their ends, so the status line of a game in
    progress shows the name of the player to move, never the bare mark that
    the fallback [players[nextPlayer] || nextPlayer] provides for. *)
Theorem player_names_ok (s : state) :
  reachable s ->
  (forall m, name_ok (name_of (players s) m)) /\
  status s = getStatus (board s) (name_of (players s) (nextPlayer s)).
Proof.
  intros Hreach.
  assert (Hnames : forall m, name_ok (name_of (players s) m)).
  { induction Hreach as [|s e _ IH _]; [apply defaultNames_ok|].
    destruct (step_players s e) as [->|H]; assumption. }
  split; [exact Hnames|].
  unfold status. destruct (Hnames (nextPlayer s)) as [Hne _].
  destruct (name_of (players s) (nextPlayer s)); [congruence|reflexivity].
Qed.

(** Blank input for X and a padded name for O. *)
Lemma player_names_ok_witness :
  let s := run initial [ChangeNameX [32; 32]%N; ChangeNameO (lit " Bo ");
                        SubmitNames; ClickSquare 4] in
  players s = Names (lit "Player 1") (lit "Bo") /\
  name_ok (name_of (players s) O) /\
  status s = lit "Next player: Bo".
Proof.
  intros s.
  assert (Hreach : reachable s).
  { apply reachable_run; [constructor|].
    cbn [deliverable_all deliverable]. unfold rendered.
    repeat split; try lia. eexists. vm_compute. reflexivity. }
  destruct (player_names_ok s Hreach) as [Hnames Hstatus].
  split; [vm_compute; reflexivity|]. split; [apply Hnames|].
  rewrite Hstatus. vm_compute. reflexivity.
Defined.

(** ** Play and the names *)

Ltac fields :=
  cbn [board nextPlayer isStarted players nameInputs isNameEditorOpen
       selectedIndex].

Lemma same_game_click s t index :
  same_game s t ->
  same_game (handleSquareClick index s) (handleSquareClick index t).
Proof.
  intros (Hb & Hn & Hst & Hsel).
  unfold handleSquareClick, winner. rewrite <- Hb, <- Hn, <- Hst, <- Hsel.
  destruct (truthy (aget (board s) index) || truthy (getWinner (board s))).
  - repeat split; assumption.
  - repeat split.
Qed.

Lemma same_game_step s t e :
  same_game s t -> same_game (step s e) (step t e).
Proof.
  intros Hsame. pose proof Hsame as (Hb & Hn & Hst & Hsel).
  destruct e as [index| | | | |k inField|v|v|]; cbn [step];
    try (repeat split; fields; assumption).
  - apply same_game_click. exact Hsame.
  - unfold handleBoardKeyDown. rewrite <- Hst, <- Hsel.
    destruct (negb (isStarted s)); [exact Hsame|].
    destruct inField; [exact Hsame|].
    destruct k; try exact Hsame; try (apply same_game_click; exact Hsame);
      unfold moveSelection, setSelectedIndex, same_game; fields;
      rewrite <- ?Hsel; repeat split; assumption.
Qed.

Lemma same_game_run s t es :
  same_game s t -> same_game (run s es) (run t es).
Proof.
  revert s t. induction es as [|e es IH]; intros s t Hsame; [exact Hsame|].
  cbn [run fold_left]. apply IH. apply same_game_step. exact Hsame.
Qed.

(** X13: the players' names never influence play: two states with the same
    board, mark to move, started flag and selected square still have these
    four in common after any sequence of events, whatever their names, name
    inputs and name editor are. *)
Theorem play_independent_of_names (s t : state) (es : list event) :
  board s = board t -> nextPlayer s = nextPlayer t ->
  isStarted s = isStarted t -> selectedIndex s = selectedIndex t ->
  board (run s es) = board (run t es) /\
  nextPlayer (run s es) = nextPlayer (run t es) /\
  isStarted (run s es) = isStarted (run t es) /\
  selectedIndex (run s es) = selectedIndex (run t es).
Proof.
  intros Hb Hn Hst Hsel. apply (same_game_run s t es).
  repeat split; assumption.
Qed.

(** The scenario played under the default names and under custom ones. *)
Lemma play_independent_of_names_witness :
  let s := handleStartDefault initial in
  let t := handleStartWithNames (changeNameX (lit "Ann") initial) in
  players s <> players t /\
  board (run s scenario) = board (run t scenario) /\
  nextPlayer (run s scenario) = nextPlayer (run t scenario).
Proof.
  intros s t. split; [vm_compute; congruence|].
  destruct (play_independent_of_names s t scenario) as (Hb & Hn & _);
    try reflexivity.
  split; [exact Hb|exact Hn].
Defined.

(** X14: restarting keeps no history: in a started game, after "Restart"
    (or "Play again") any sequence of events leads to the same board, mark
    to move and selected square as from a freshly started game; and "Exit
    to home" followed by "Start game" gives exactly the state of a first
    start, in whatever state the game was left. *)
Theorem restart_plays_like_fresh (s : state) (es : list event) :
  isStarted s = true ->
  same_game (run (handleReset s) es) (run (handleStartDefault initial) es) /\
  handleStartDefault (handleEndGame s) = handleStartDefault initial.
Proof.
  intros Hst. split; [|reflexivity].
  apply same_game_run. repeat split. exact Hst.
Qed.

Lemma restart_plays_like_fresh_witness :
  board (run (handleReset (run initial won_game)) scenario)
  = board_of [Some O; Some O; Some X; None; Some X; None; None; None; Some X].
Proof.
  destruct (restart_plays_like_fresh (run initial won_game) scenario)
    as [(Hb & _) _]; [reflexivity|].
  rewrite Hb. vm_compute. reflexivity.
Defined.

(** ** A game in progress can go on *)



